(** * The in-memory Ed25519 key store of [tuf/signed/ed25519.go]

    A shallow embedding of the Go type [Ed25519] and of its methods, and the
    properties of the key registry, the key factory and the signing engine.

    The Go [map[string]edCryptoKey] is a [gmap string edCryptoKey]; a method
    with a pointer receiver that assigns to the map returns the new store;
    a call that can hit a run-time panic lives in the [go] monad. *)

From Stdlib Require Import Strings.Byte.
From stdpp Require Import gmap strings list fin_maps.

(** ** Go calls: normal return or run-time panic *)

Inductive go (A : Type) : Type :=
| Returned (a : A)
| Panicked.
Arguments Returned {A} a.
Arguments Panicked {A}.

#[global] Instance go_ret : MRet go := fun A a => Returned a.
#[global] Instance go_bind : MBind go := fun A B f m =>
  match m with
  | Returned a => f a
  | Panicked => Panicked
  end.

(** A value of a Go interface type is [nil] ([None]) or holds a dynamic
    value.  Calling a method through a [nil] interface value panics. *)
Definition call_method {K R : Type} (method : K -> R) (i : option K) : go R :=
  match i with
  | Some k => Returned (method k)
  | None => Panicked
  end.

(** The builtin [copy(dst, src)]: the first [min (len dst) (len src)]
    elements of [dst] are overwritten, the others are kept. *)
Definition copy {A : Type} (dst src : list A) : list A :=
  take (length dst) src ++ drop (length src) dst.

(** A Go [error] value that is not [nil]; [errors.New text]. *)
Inductive error : Type :=
| errors_New (text : string).

(** ** The imported packages

    [github.com/docker/notary/tuf/data], [github.com/agl/ed25519] and
    [crypto/rand] are not part of this source file: what the store uses of
    them is an interface that every result below is generic in.

    [data.PublicKey] and [data.PrivateKey] are interface types: [Create]
    returns both [nil] and a [*ED25519PublicKey] as a [data.PublicKey], and
    passes a [*ED25519PrivateKey] for a [data.PrivateKey].  [PrivateKey] and
    [PublicKey] are the dynamic values behind them, so that a variable of
    those Go types is an [option], [None] being [nil]. *)
Class Imports : Type := {
  PrivateKey : Type;
  PublicKey : Type;
  (* methods of data.PrivateKey *)
  ID : PrivateKey -> string;
  Private : PrivateKey -> list byte;
  (* data.PublicKeyFromPrivate on a key that is not nil, and on nil *)
  PublicKeyFromPrivate : PrivateKey -> PublicKey;
  PublicKeyFromPrivate_nil : go (option PublicKey);
  (* data.NewED25519PublicKey, data.NewED25519PrivateKey *)
  NewED25519PublicKey : list byte -> PublicKey;
  NewED25519PrivateKey : PublicKey -> list byte -> PrivateKey + error;
  (* the constants data.ED25519Key and data.EDDSASignature *)
  ED25519Key : string;
  EDDSASignature : string;
  (* ed25519.PrivateKeySize and ed25519.Sign *)
  PrivateKeySize : nat;
  ed25519_Sign : list byte -> list byte -> list byte;
}.

(** What [ed25519.GenerateKey(rand.Reader)] hands back: the random draw is
    an input of [Create]. *)
Inductive GenerateKey : Type :=
| GenerateKey_ok (pub priv : list byte)
| GenerateKey_err (err : error).

Section Store.
Context `{Imports}.

(** ** Data model *)

Record edCryptoKey : Type := {
  role : string;
  privKey : option PrivateKey;
}.

(** The zero value of the struct, which indexing the map with an absent key
    yields. *)
#[global] Instance edCryptoKey_inhabited : Inhabited edCryptoKey :=
  populate {| role := ""; privKey := None |}.

Record Ed25519 : Type := {
  keys : gmap string edCryptoKey;
}.

(** [data.Signature] *)
Record Signature : Type := {
  KeyID : string;
  Method : string;
  Signature_ : list byte;
}.

(** ** Operations *)

Definition NewEd25519 : Ed25519 := {| keys := ∅ |}.

Definition addKey (e : Ed25519) (role : string) (k : option PrivateKey)
  : go Ed25519 :=
  id ← call_method ID k;
  mret {| keys := <[id := {| role := role; privKey := k |}]> (keys e) |}.

Definition RemoveKey (e : Ed25519) (keyID : string)
  : Ed25519 * option error :=
  ({| keys := delete keyID (keys e) |}, None).

(** [for id := range e.keys] visits the entries in an order the run time
    chooses: any arrangement of the entries of the map. *)
Definition range_order (e : Ed25519) (order : list (string * edCryptoKey))
  : Prop :=
  order ≡ₚ map_to_list (keys e).

Definition ListKeys (e : Ed25519) (role : string)
    (order : list (string * edCryptoKey)) : list string :=
  fold_left (fun keyIDs entry => keyIDs ++ [entry.1]) order [].

Definition ListAllKeys (e : Ed25519) (order : list (string * edCryptoKey))
  : gmap string string :=
  fold_left (fun keys entry => <[entry.1 := role entry.2]> keys) order ∅.

Fixpoint Sign_loop (e : Ed25519) (keyIDs : list string) (toSign : list byte)
    (signatures : list Signature) : go (list Signature) :=
  match keyIDs with
  | [] => mret signatures
  | keyID :: rest =>
      let priv := replicate PrivateKeySize x00 in
      private ← call_method Private (privKey (keys e !!! keyID));
      let priv := copy priv private in
      let sig := ed25519_Sign priv toSign in
      Sign_loop e rest toSign
        (signatures ++ [{| KeyID := keyID;
                           Method := EDDSASignature;
                           Signature_ := sig |}])
  end.

Definition Sign (e : Ed25519) (keyIDs : list string) (toSign : list byte)
  : go (list Signature * option error) :=
  signatures ← Sign_loop e keyIDs toSign [];
  mret (signatures, None).

Definition Create (e : Ed25519) (role algorithm : string) (rnd : GenerateKey)
  : go (Ed25519 * (option PublicKey * option error)) :=
  if decide (algorithm ≠ ED25519Key) then
    mret (e, (None,
              Some (errors_New "only ED25519 supported by this cryptoservice")))
  else
    match rnd with
    | GenerateKey_err err => mret (e, (None, Some err))
    | GenerateKey_ok pub priv =>
        let public := NewED25519PublicKey pub in
        match NewED25519PrivateKey public priv with
        | inr err => mret (e, (None, Some err))
        | inl private =>
            e' ← addKey e role (Some private);
            mret (e', (Some public, None))
        end
    end.

(** [data.PublicKeyFromPrivate] applied to an interface value. *)
Definition PublicKeyFromPrivate_call (pk : option PrivateKey)
  : go (option PublicKey) :=
  match pk with
  | Some k => mret (Some (PublicKeyFromPrivate k))
  | None => PublicKeyFromPrivate_nil
  end.

Fixpoint PublicKeys_loop (e : Ed25519) (keyIDs : list string)
    (k : gmap string (option PublicKey)) : go (gmap string (option PublicKey)) :=
  match keyIDs with
  | [] => mret k
  | keyID :: rest =>
      match keys e !! keyID with
      | Some edKey =>
          pub ← PublicKeyFromPrivate_call (privKey edKey);
          PublicKeys_loop e rest (<[keyID := pub]> k)
      | None => PublicKeys_loop e rest k
      end
  end.

Definition PublicKeys (e : Ed25519) (keyIDs : list string)
  : go (gmap string (option PublicKey) * option error) :=
  k ← PublicKeys_loop e keyIDs ∅;
  mret (k, None).

Definition GetKey (e : Ed25519) (keyID : string) : go (option PublicKey) :=
  PublicKeyFromPrivate_call (privKey (keys e !!! keyID)).

Definition GetPrivateKey (e : Ed25519) (keyID : string)
  : option PrivateKey * string * option error :=
  (privKey (keys e !!! keyID), "", None).

End Store.

(** ** The store as a state machine *)

Section Machine.
Context `{Imports}.

(** One call on a shared store. *)
Inductive call : Type :=
| CallCreate (role algorithm : string) (rnd : GenerateKey)
| CallAddKey (role : string) (k : option PrivateKey)
| CallRemoveKey (keyID : string)
| CallListKeys (role : string)
| CallListAllKeys
| CallSign (keyIDs : list string) (toSign : list byte)
| CallPublicKeys (keyIDs : list string)
| CallGetKey (keyID : string)
| CallGetPrivateKey (keyID : string).

(** The store after a call.  Only [Create], [addKey] and [RemoveKey] assign
    to [e.keys]; a call that panics has assigned nothing before it does. *)
Definition after (e : Ed25519) (c : call) : Ed25519 :=
  match c with
  | CallCreate role algorithm rnd =>
      match Create e role algorithm rnd with
      | Returned (e', _) => e'
      | Panicked => e
      end
  | CallAddKey role k =>
      match addKey e role k with
      | Returned e' => e'
      | Panicked => e
      end
  | CallRemoveKey keyID => (RemoveKey e keyID).1
  | CallListKeys _ | CallListAllKeys | CallSign _ _ | CallPublicKeys _
  | CallGetKey _ | CallGetPrivateKey _ => e
  end.

Definition run (calls : list call) : Ed25519 :=
  fold_left after calls NewEd25519.

(** An entry holds a key, and that key's own [ID()] is [keyID]. *)
Definition own_ID (keyID : string) (edKey : edCryptoKey) : Prop :=
  ID <$> privKey edKey = Some keyID.

#[global] Instance own_ID_dec keyID edKey : Decision (own_ID keyID edKey) :=
  decide (ID <$> privKey edKey = Some keyID).

(** Self-consistency of the registry: every entry is stored under the
    identifier of its own key. *)
Definition consistent (e : Ed25519) : Prop :=
  map_Forall own_ID (keys e).

#[global] Instance consistent_dec (e : Ed25519) : Decision (consistent e) :=
  map_Forall_dec own_ID (keys e).

(** The signature [Sign] appends for a key that is held. *)
Definition signature_of (toSign : list byte) (keyID : string) (k : PrivateKey)
  : Signature :=
  {| KeyID := keyID;
     Method := EDDSASignature;
     Signature_ :=
       ed25519_Sign (copy (replicate PrivateKeySize x00) (Private k)) toSign |}.

End Machine.

(** ** A sample implementation of the imported interface

    Keys are a public name with private bytes; on it the operations
    evaluate. *)
Definition sample : Imports := {|
  PrivateKey := string * list byte;
  PublicKey := string;
  ID := fun k => "sha:" +:+ k.1;
  Private := snd;
  PublicKeyFromPrivate := fst;
  PublicKeyFromPrivate_nil := Panicked;
  NewED25519PublicKey := String.string_of_list_byte;
  NewED25519PrivateKey := fun public priv => inl (public, priv);
  ED25519Key := "ed25519";
  EDDSASignature := "eddsa";
  PrivateKeySize := 64;
  ed25519_Sign := fun priv toSign => take 2 priv ++ toSign;
|}.

Definition sample_root : @PrivateKey sample := ("r", [x01; x02; x03]).
Definition sample_targets : @PrivateKey sample := ("t", [x0a; x0b]).
(** Another key with the public name of [sample_root]. *)
Definition sample_root2 : @PrivateKey sample := ("r", [x09]).

(** A store holding a root key and a targets key. *)
Definition sample_store : @Ed25519 sample :=
  @run sample [CallAddKey "root" (Some sample_root);
               CallAddKey "targets" (Some sample_targets)].

(** A key that [sample_store] does not hold. *)
Definition sample_snapshot : @PrivateKey sample := ("s", [x05]).

(** The keys of [sample_store] under other roles. *)
Definition sample_store_roles : @Ed25519 sample :=
  @run sample [CallAddKey "timestamp" (Some sample_root);
               CallAddKey "snapshot" (Some sample_targets)].

(** The entries of [sample_store]. *)
Definition sample_root_entry : @edCryptoKey sample :=
  {| role := "root"; privKey := Some sample_root |}.
Definition sample_targets_entry : @edCryptoKey sample :=
  {| role := "targets"; privKey := Some sample_targets |}.

(** The sample implementation with a [data.NewED25519PrivateKey] that
    refuses empty private bytes. *)
Definition sample_checked : Imports := {|
  PrivateKey := string * list byte;
  PublicKey := string;
  ID := fun k => "sha:" +:+ k.1;
  Private := snd;
  PublicKeyFromPrivate := fst;
  PublicKeyFromPrivate_nil := Panicked;
  NewED25519PublicKey := String.string_of_list_byte;
  NewED25519PrivateKey := fun public priv =>
    match priv with
    | [] => inr (errors_New "private key is empty")
    | _ => inl (public, priv)
    end;
  ED25519Key := "ed25519";
  EDDSASignature := "eddsa";
  PrivateKeySize := 64;
  ed25519_Sign := fun priv toSign => take 2 priv ++ toSign;
|}.

(** * Properties *)

Section Properties.
Context `{Imports}.
Implicit Types (e : Ed25519) (keyID : string) (k : PrivateKey).

(** ** Indexing the map *)

Lemma index_present e keyID edKey :
  keys e !! keyID = Some edKey -> keys e !!! keyID = edKey.
Proof. apply lookup_total_correct. Qed.

Lemma index_absent e keyID :
  keys e !! keyID = None -> keys e !!! keyID = {| role := ""; privKey := None |}.
Proof. intros Hnone. by rewrite lookup_total_alt, Hnone. Qed.

Lemma Ed25519_eq e1 e2 : keys e1 = keys e2 -> e1 = e2.
Proof. destruct e1, e2; simpl; congruence. Qed.

(** ** addKey and RemoveKey *)

Lemma addKey_held e r k :
  addKey e r (Some k)
  = Returned {| keys := <[ID k := {| role := r; privKey := Some k |}]> (keys e) |}.
Proof. reflexivity. Qed.

Lemma addKey_nil e r : addKey e r None = Panicked.
Proof. reflexivity. Qed.

Lemma consistent_lookup e keyID edKey :
  consistent e -> keys e !! keyID = Some edKey ->
  exists k, privKey edKey = Some k /\ ID k = keyID.
Proof.
  intros Hcons Hget. specialize (Hcons keyID edKey Hget).
  unfold own_ID in Hcons.
  destruct (privKey edKey) as [k|]; simplify_eq/=. eauto.
Qed.

Lemma consistent_new : consistent NewEd25519.
Proof. apply map_Forall_empty. Qed.

Lemma consistent_addKey e r (pk : option PrivateKey) e' :
  consistent e -> addKey e r pk = Returned e' -> consistent e'.
Proof.
  intros Hcons Hadd. destruct pk as [k|]; [|discriminate].
  rewrite addKey_held in Hadd. injection Hadd as <-.
  unfold consistent; simpl. by apply map_Forall_insert_2.
Qed.

Lemma consistent_RemoveKey e keyID :
  consistent e -> consistent (RemoveKey e keyID).1.
Proof. intros Hcons. unfold consistent; simpl. by apply map_Forall_delete. Qed.

(** ** Create *)

Lemma Create_returns e r algorithm rnd :
  exists e' res, Create e r algorithm rnd = Returned (e', res) /\
    (e' = e \/ exists k, addKey e r (Some k) = Returned e').
Proof.
  unfold Create. case_decide; [by eauto|].
  destruct rnd as [pub priv|err]; [|by eauto].
  destruct (NewED25519PrivateKey _ _) as [k|err]; [|by eauto].
  rewrite addKey_held. simpl. eauto 6.
Qed.

Lemma consistent_after e c : consistent e -> consistent (after e c).
Proof.
  intros Hcons.
  destruct c as [r algorithm rnd|r pk|keyID| | | | | |]; simpl; try done.
  - destruct (Create_returns e r algorithm rnd) as (e' & res & -> & Hor).
    destruct Hor as [-> | [k Hadd]]; eauto using consistent_addKey.
  - destruct (addKey e r pk) as [e'|] eqn:Hadd; eauto using consistent_addKey.
  - by apply consistent_RemoveKey.
Qed.

Lemma consistent_fold calls : forall e,
  consistent e -> consistent (fold_left after calls e).
Proof.
  induction calls as [|c calls IH]; intros e Hcons; simpl; [done|].
  apply IH. by apply consistent_after.
Qed.

Lemma consistent_run calls : consistent (run calls).
Proof. apply consistent_fold, consistent_new. Qed.

(** ** C4 : [Create] with an algorithm that is not [data.ED25519Key] returns
    the error of the unsupported algorithm, with a [nil] public key, and the
    store it returns is the store it was given: no entry is added or
    changed. *)
Theorem Create_unsupported_algorithm e r algorithm rnd :
  algorithm ≠ ED25519Key ->
  Create e r algorithm rnd
  = Returned (e, (None, Some (errors_New
                   "only ED25519 supported by this cryptoservice"))).
Proof. intros Hne. unfold Create. by rewrite decide_True. Qed.

(** ** C5 : after every sequence of calls on a new store ([Create], [addKey],
    [RemoveKey] and the read accessors, in any order and with any arguments),
    every entry of the registry is stored under the identifier that its own
    key's [ID()] gives, and no identifier occurs twice among the entries. *)
Theorem registry_invariant (calls : list call) :
  consistent (run calls) /\
  (forall keyID edKey, keys (run calls) !! keyID = Some edKey ->
     exists k, privKey edKey = Some k /\ ID k = keyID) /\
  NoDup (map_to_list (keys (run calls))).*1.
Proof.
  pose proof (consistent_run calls) as Hcons.
  split_and!; [done| |apply NoDup_fst_map_to_list].
  intros keyID edKey. by apply consistent_lookup.
Qed.

(** ** C8 : [RemoveKey] never returns an error and deletes the entry of the
    identifier, leaving the others; on an absent identifier the store is
    unchanged; a second call with the same identifier returns no error and
    the same store as the first. *)
Theorem RemoveKey_idempotent e keyID :
  (RemoveKey e keyID).2 = None /\
  keys (RemoveKey e keyID).1 = delete keyID (keys e) /\
  keys (RemoveKey e keyID).1 !! keyID = None /\
  (forall id, id ≠ keyID -> keys (RemoveKey e keyID).1 !! id = keys e !! id) /\
  (keys e !! keyID = None -> RemoveKey e keyID = (e, None)) /\
  RemoveKey (RemoveKey e keyID).1 keyID = RemoveKey e keyID.
Proof.
  split_and!; simpl; try done.
  - apply lookup_delete_eq.
  - intros id Hne. by apply lookup_delete_ne.
  - intros Hnone. unfold RemoveKey. f_equal.
    apply Ed25519_eq; simpl. by apply delete_id.
  - unfold RemoveKey; simpl. by rewrite delete_delete_eq.
Qed.

(** ** C10 : [addKey] with a key whose [ID()] is already a key of the
    registry returns (no panic, and it has no error result); afterwards the
    entry under that identifier holds the new role and the new key, every
    other entry is as before, and the registry has as many entries as
    before. *)
Theorem addKey_overwrites e r k old :
  keys e !! ID k = Some old ->
  exists e', addKey e r (Some k) = Returned e' /\
    keys e' !! ID k = Some {| role := r; privKey := Some k |} /\
    (forall id, id ≠ ID k -> keys e' !! id = keys e !! id) /\
    size (keys e') = size (keys e).
Proof.
  intros Hold. eexists. split; [apply addKey_held|]. simpl. split_and!.
  - apply lookup_insert_eq.
  - intros id Hne. by apply lookup_insert_ne.
  - apply map_size_insert_Some. by eexists.
Qed.

(** ** ListKeys *)

Lemma ListKeys_fold (order : list (string * edCryptoKey)) : forall keyIDs,
  fold_left (fun keyIDs entry => keyIDs ++ [entry.1]) order keyIDs
  = keyIDs ++ order.*1.
Proof.
  induction order as [|entry order IH]; intros keyIDs; simpl.
  - by rewrite app_nil_r.
  - by rewrite IH, <-app_assoc.
Qed.

Lemma ListKeys_fst e r order : ListKeys e r order = order.*1.
Proof. unfold ListKeys. by rewrite ListKeys_fold. Qed.

Lemma ListKeys_keys e r order :
  range_order e order -> ListKeys e r order ≡ₚ (map_to_list (keys e)).*1.
Proof. intros Horder. rewrite ListKeys_fst. by rewrite Horder. Qed.

(** ** C6 : whatever the role argument and whatever order the iteration
    takes, [ListKeys] returns the identifiers of the registry, each once: an
    identifier is in the result exactly when it has an entry, the result is
    as long as the registry is large, it does not depend on the role, and
    two calls give the same identifiers up to their order. *)
Theorem ListKeys_all_keys e r order :
  range_order e order ->
  (forall keyID, keyID ∈ ListKeys e r order <-> is_Some (keys e !! keyID)) /\
  NoDup (ListKeys e r order) /\
  length (ListKeys e r order) = size (keys e) /\
  (forall r', ListKeys e r' order = ListKeys e r order) /\
  (forall r' order', range_order e order' ->
     ListKeys e r' order' ≡ₚ ListKeys e r order).
Proof.
  intros Horder. pose proof (ListKeys_keys e r order Horder) as Hperm.
  split_and!.
  - intros keyID. rewrite Hperm, list_elem_of_fmap. split.
    + intros ([id edKey] & -> & Hin). apply elem_of_map_to_list in Hin.
      by eexists.
    + intros [edKey Hget]. exists (keyID, edKey). split; [done|].
      by apply elem_of_map_to_list.
  - rewrite Hperm. apply NoDup_fst_map_to_list.
  - by rewrite Hperm, length_fmap, length_map_to_list.
  - intros r'. by rewrite !ListKeys_fst.
  - intros r' order' Horder'. rewrite Hperm. by apply ListKeys_keys.
Qed.

(** ** ListAllKeys *)

Lemma ListAllKeys_fold (order : list (string * edCryptoKey)) :
  NoDup order.*1 -> forall (roles : gmap string string) id,
  fold_left (fun keys entry => <[entry.1 := role entry.2]> keys) order roles
    !! id
  = match (list_to_map order : gmap string edCryptoKey) !! id with
    | Some edKey => Some (role edKey)
    | None => roles !! id
    end.
Proof.
  induction order as [|[keyID edKey] order IH]; intros Hnodup roles id.
  - simpl. by rewrite lookup_empty.
  - rewrite fmap_cons in Hnodup. apply NoDup_cons in Hnodup as [Hfresh Hnodup].
    cbn [fold_left list_to_map foldr fst snd uncurry]. rewrite IH by done.
    destruct (decide (id = keyID)) as [->|Hne].
    + rewrite (not_elem_of_list_to_map_1 order keyID Hfresh).
      by rewrite !lookup_insert_eq.
    + rewrite !(lookup_insert_ne _ keyID id) by done. done.
Qed.

Lemma ListAllKeys_roles e order :
  range_order e order -> ListAllKeys e order = role <$> keys e.
Proof.
  intros Horder. apply map_eq. intros id. unfold ListAllKeys.
  assert (NoDup order.*1) as Hnodup.
  { rewrite Horder. apply NoDup_fst_map_to_list. }
  rewrite ListAllKeys_fold by done.
  rewrite (list_to_map_proper (M := gmap string) order (map_to_list (keys e)))
    by done.
  rewrite list_to_map_to_list, lookup_fmap, lookup_empty.
  by destruct (keys e !! id).
Qed.

(** ** PublicKeys, GetKey, GetPrivateKey *)

Lemma if_elem_of_cons_ne {A} (id keyID : string) rest (a b : A) :
  id ≠ keyID ->
  (if decide (id ∈ keyID :: rest) then a else b)
  = (if decide (id ∈ rest) then a else b).
Proof.
  intros Hne. destruct (decide (id ∈ rest)) as [Hin|Hnin].
  - rewrite decide_True; [done|]. by apply list_elem_of_further.
  - rewrite decide_False; [done|]. by intros [?|?]%elem_of_cons.
Qed.

Lemma PublicKeys_loop_spec e :
  consistent e -> forall keyIDs acc,
  exists pubs, PublicKeys_loop e keyIDs acc = Returned pubs /\
    forall id, pubs !! id =
      match keys e !! id with
      | Some edKey =>
          if decide (id ∈ keyIDs)
          then Some (PublicKeyFromPrivate <$> privKey edKey)
          else acc !! id
      | None => acc !! id
      end.
Proof.
  intros Hcons.
  induction keyIDs as [|keyID rest IH]; intros acc; cbn [PublicKeys_loop].
  - exists acc. split; [done|]. intros id.
    destruct (keys e !! id); [|done].
    rewrite decide_False; [done|]. apply not_elem_of_nil.
  - destruct (keys e !! keyID) as [edKey|] eqn:Hget.
    + destruct (consistent_lookup _ _ _ Hcons Hget) as (k & Hk & _).
      rewrite Hk; simpl.
      destruct (IH (<[keyID := Some (PublicKeyFromPrivate k)]> acc))
        as (pubs & -> & Hpubs).
      exists pubs. split; [done|]. intros id. rewrite Hpubs.
      destruct (decide (id = keyID)) as [->|Hne].
      * rewrite Hget, Hk, lookup_insert_eq.
        rewrite (decide_True (P := keyID ∈ keyID :: rest))
          by apply list_elem_of_here.
        by case_decide.
      * rewrite lookup_insert_ne by done.
        destruct (keys e !! id); [|done]. by rewrite if_elem_of_cons_ne.
    + destruct (IH acc) as (pubs & -> & Hpubs).
      exists pubs. split; [done|]. intros id. rewrite Hpubs.
      destruct (keys e !! id) as [edKey|] eqn:Hid; [|done].
      assert (id ≠ keyID) by congruence. by rewrite if_elem_of_cons_ne.
Qed.

(** ** C7 : on the store that any sequence of calls has built, and for every
    list of identifiers, [PublicKeys] returns a map and a [nil] error; the
    map has an entry exactly for the requested identifiers that the registry
    holds, each with the public key of the stored key; a requested
    identifier that the registry does not hold has no entry and causes no
    error. *)
Theorem PublicKeys_present_only (calls : list call) (keyIDs : list string) :
  exists pubs, PublicKeys (run calls) keyIDs = Returned (pubs, None) /\
    (forall id, is_Some (pubs !! id)
                <-> id ∈ keyIDs /\ is_Some (keys (run calls) !! id)) /\
    (forall id edKey k, id ∈ keyIDs -> keys (run calls) !! id = Some edKey ->
       privKey edKey = Some k ->
       pubs !! id = Some (Some (PublicKeyFromPrivate k))) /\
    (forall id, id ∈ keyIDs -> keys (run calls) !! id = None ->
       pubs !! id = None).
Proof.
  generalize (consistent_run calls). generalize (run calls). intros e Hcons.
  destruct (PublicKeys_loop_spec e Hcons keyIDs ∅) as (pubs & Hloop & Hpubs).
  exists pubs. unfold PublicKeys. rewrite Hloop. split; [done|]. split_and!.
  - intros id. rewrite Hpubs, lookup_empty.
    destruct (keys e !! id) as [edKey|]; [case_decide|].
    + split; [by eauto|]. by intros _; eexists.
    + split; [by intros [? ?]|]. by intros [? _].
    + split; [by intros [? ?]|]. by intros [_ [? ?]].
  - intros id edKey k Hin Hget Hk.
    by rewrite Hpubs, Hget, Hk, decide_True.
  - intros id Hin Hget. by rewrite Hpubs, Hget, lookup_empty.
Qed.

Lemma GetKey_present e keyID edKey k :
  keys e !! keyID = Some edKey -> privKey edKey = Some k ->
  GetKey e keyID = Returned (Some (PublicKeyFromPrivate k)).
Proof.
  intros Hget Hk. unfold GetKey. by rewrite (index_present _ _ _ Hget), Hk.
Qed.

Lemma GetPrivateKey_present e keyID edKey :
  keys e !! keyID = Some edKey ->
  GetPrivateKey e keyID = (privKey edKey, "", None).
Proof.
  intros Hget. unfold GetPrivateKey. by rewrite (index_present _ _ _ Hget).
Qed.

Lemma GetPrivateKey_absent e keyID :
  keys e !! keyID = None -> GetPrivateKey e keyID = (None, "", None).
Proof. intros Hget. unfold GetPrivateKey. by rewrite index_absent. Qed.

(** ** C2 : [GetKey] indexes the map and hands the key of what it finds to
    [data.PublicKeyFromPrivate]: for an identifier with an entry, the key of
    the entry; for an identifier without one, the [nil] key of the
    zero-valued entry.  On a new store, where no identifier has an entry,
    what that call does on [nil] is all that [GetKey] does: it has no error
    result to report the absent key with. *)
Theorem GetKey_absent_key e keyID :
  GetKey e keyID
  = match keys e !! keyID with
    | Some edKey => PublicKeyFromPrivate_call (privKey edKey)
    | None => PublicKeyFromPrivate_nil
    end /\
  GetKey NewEd25519 keyID = PublicKeyFromPrivate_nil.
Proof.
  split.
  - unfold GetKey. destruct (keys e !! keyID) as [edKey|] eqn:Hget.
    + by rewrite (index_present _ _ _ Hget).
    + by rewrite index_absent.
  - unfold GetKey. by rewrite index_absent.
Qed.

(** ** C3 : after [addKey] of a key under the role ["root"] on a new store,
    the registry records the role ["root"] for it, as [ListAllKeys] reports,
    and [GetPrivateKey] returns the key with the empty role and a [nil]
    error; on an identifier without an entry it returns a [nil] key, the
    empty role and a [nil] error. *)
Theorem GetPrivateKey_role_and_absent k :
  exists e1, addKey NewEd25519 "root" (Some k) = Returned e1 /\
    ListAllKeys e1 (map_to_list (keys e1)) !! ID k = Some "root" /\
    GetPrivateKey e1 (ID k) = (Some k, "", None) /\
    GetPrivateKey NewEd25519 (ID k) = (None, "", None).
Proof.
  eexists. split; [apply addKey_held|]. split_and!.
  - simpl. rewrite insert_empty, map_to_list_singleton. simpl.
    apply lookup_insert_eq.
  - rewrite (GetPrivateKey_present _ _ {| role := "root"; privKey := Some k |});
      [done|]. apply lookup_insert_eq.
  - by apply GetPrivateKey_absent.
Qed.

(** ** Sign *)

Lemma Sign_loop_held e toSign :
  consistent e -> forall keyIDs signatures,
  Forall (fun keyID => is_Some (keys e !! keyID)) keyIDs ->
  exists sigs,
    Sign_loop e keyIDs toSign signatures = Returned (signatures ++ sigs) /\
    Forall2 (fun keyID s => exists edKey k,
               keys e !! keyID = Some edKey /\ privKey edKey = Some k /\
               s = signature_of toSign keyID k) keyIDs sigs.
Proof.
  intros Hcons. induction keyIDs as [|keyID rest IH]; intros signatures Hall.
  - exists []. by rewrite app_nil_r.
  - apply Forall_cons in Hall as [[edKey Hget] Hrest].
    destruct (consistent_lookup _ _ _ Hcons Hget) as (k & Hk & _).
    cbn [Sign_loop]. rewrite (index_present _ _ _ Hget), Hk. simpl.
    destruct (IH (signatures ++ [signature_of toSign keyID k]) Hrest)
      as (sigs & Hloop & Hsigs).
    exists (signature_of toSign keyID k :: sigs). split.
    + unfold signature_of in Hloop. rewrite Hloop. by rewrite <-app_assoc.
    + constructor; [by eauto|done].
Qed.

Lemma signatures_in_order toSign e (keyIDs : list string) sigs :
  Forall2 (fun keyID s => exists edKey k,
             keys e !! keyID = Some edKey /\ privKey edKey = Some k /\
             s = signature_of toSign keyID k) keyIDs sigs ->
  KeyID <$> sigs = keyIDs /\ Forall (fun s => Method s = EDDSASignature) sigs.
Proof.
  induction 1 as [|keyID s keyIDs sigs (edKey & k & _ & _ & ->) _ [IH1 IH2]].
  - by split.
  - split; [by rewrite fmap_cons, IH1|by constructor].
Qed.

Lemma Sign_loop_absent e toSign keyID :
  keys e !! keyID = None -> forall keyIDs signatures,
  keyID ∈ keyIDs -> Sign_loop e keyIDs toSign signatures = Panicked.
Proof.
  intros Hnone. induction keyIDs as [|id rest IH]; intros signatures Hin.
  - by apply elem_of_nil in Hin.
  - cbn [Sign_loop].
    destruct (privKey (keys e !!! id)) as [k|] eqn:Hk; simpl; [|done].
    apply IH. apply elem_of_cons in Hin as [->|Hin]; [|done].
    rewrite index_absent in Hk by done. discriminate.
Qed.

Lemma Sign_error_nil e keyIDs toSign :
  Sign e keyIDs toSign = Panicked \/
  exists sigs, Sign e keyIDs toSign = Returned (sigs, None).
Proof.
  unfold Sign. destruct (Sign_loop e keyIDs toSign []) as [sigs|]; simpl; eauto.
Qed.

(** ** C1 : when a requested identifier has no entry in the registry, [Sign]
    reads the zero-valued entry, whose key is the [nil] interface value, and
    the call of [Private()] on it panics: no signature list and no error is
    returned.  On no input at all does [Sign] return an error that is not
    [nil]. *)
Theorem Sign_absent_key_panics e (keyIDs : list string) toSign keyID :
  keyID ∈ keyIDs -> keys e !! keyID = None ->
  Sign e keyIDs toSign = Panicked /\
  (forall e' keyIDs' toSign',
     Sign e' keyIDs' toSign' = Panicked \/
     exists sigs, Sign e' keyIDs' toSign' = Returned (sigs, None)).
Proof.
  intros Hin Hnone. split; [|by intros; apply Sign_error_nil].
  unfold Sign. by rewrite (Sign_loop_absent e toSign keyID Hnone).
Qed.

(** ** C9 : on the store that any sequence of calls has built, when every
    requested identifier has an entry, [Sign] returns a [nil] error and one
    signature for each requested identifier, in the order of the request:
    the i-th signature carries the i-th identifier; and every signature's
    method is [data.EDDSASignature]. *)
Theorem Sign_order_and_method (calls : list call) (keyIDs : list string) toSign :
  Forall (fun keyID => is_Some (keys (run calls) !! keyID)) keyIDs ->
  exists sigs, Sign (run calls) keyIDs toSign = Returned (sigs, None) /\
    length sigs = length keyIDs /\
    (forall i keyID, keyIDs !! i = Some keyID ->
       exists s, sigs !! i = Some s /\ KeyID s = keyID) /\
    KeyID <$> sigs = keyIDs /\
    Forall (fun s => Method s = EDDSASignature) sigs.
Proof.
  generalize (consistent_run calls). generalize (run calls). intros e Hcons Hall.
  destruct (Sign_loop_held e toSign Hcons keyIDs [] Hall) as (sigs & Hloop & Hsigs).
  exists sigs. unfold Sign. rewrite Hloop. split; [done|].
  destruct (signatures_in_order _ _ _ _ Hsigs) as [Hids Hmethods].
  split_and!; try done.
  - symmetry. by eapply Forall2_length.
  - intros i keyID Hi.
    destruct (Forall2_lookup_l _ _ _ _ _ Hsigs Hi)
      as (s & Hs & edKey & k & _ & _ & ->).
    by exists (signature_of toSign keyID k).
Qed.

End Properties.

(** * The statements on the sample implementation *)

Lemma Sign_absent_key_panics_witness :
  "sha:x" ∈ ["sha:r"; "sha:x"] /\
  keys sample_store !! "sha:x" = None /\
  Sign (H := sample) sample_store ["sha:r"; "sha:x"] [x68; x69] = Panicked.
Proof.
  assert (Hin : "sha:x" ∈ ["sha:r"; "sha:x"]) by (right; left).
  assert (Hnone : keys sample_store !! "sha:x" = None) by reflexivity.
  split; [exact Hin|]. split; [exact Hnone|].
  exact (proj1 (Sign_absent_key_panics (H := sample)
                  sample_store _ [x68; x69] "sha:x" Hin Hnone)).
Defined.

Lemma Create_unsupported_algorithm_witness :
  "rsa" ≠ ED25519Key (Imports := sample) /\
  Create (H := sample) sample_store "root" "rsa" (GenerateKey_ok [x01] [x02])
  = Returned (sample_store,
              (None, Some (errors_New
                       "only ED25519 supported by this cryptoservice"))).
Proof.
  assert (Hne : "rsa" ≠ ED25519Key (Imports := sample)) by discriminate.
  split; [exact Hne|].
  exact (Create_unsupported_algorithm (H := sample) sample_store "root" "rsa"
           (GenerateKey_ok [x01] [x02]) Hne).
Defined.

Lemma registry_invariant_witness : consistent (H := sample) sample_store.
Proof.
  exact (proj1 (registry_invariant (H := sample)
                  [CallAddKey "root" (Some sample_root);
                   CallAddKey "targets" (Some sample_targets)])).
Defined.

Lemma ListKeys_all_keys_witness :
  let order := [("sha:t", {| role := "targets"; privKey := Some sample_targets |});
                ("sha:r", {| role := "root"; privKey := Some sample_root |})] in
  range_order (H := sample) sample_store order /\
  ListKeys sample_store "root" order = ["sha:t"; "sha:r"] /\
  NoDup (ListKeys sample_store "root" order).
Proof.
  intros order.
  assert (Horder : range_order sample_store order) by (vm_compute; constructor).
  split; [exact Horder|]. split; [reflexivity|].
  exact (proj1 (proj2 (ListKeys_all_keys (H := sample)
                         sample_store "root" order Horder))).
Defined.

Lemma PublicKeys_present_only_witness :
  exists pubs,
    PublicKeys (H := sample) sample_store ["sha:r"; "sha:x"]
    = Returned (pubs, None) /\
    pubs !! "sha:r" = Some (Some "r") /\ pubs !! "sha:x" = None.
Proof.
  destruct (PublicKeys_present_only (H := sample)
              [CallAddKey "root" (Some sample_root);
               CallAddKey "targets" (Some sample_targets)]
              ["sha:r"; "sha:x"])
    as (pubs & Hret & _ & Hheld & Habsent).
  exists pubs. split; [exact Hret|]. split.
  - apply (Hheld "sha:r" {| role := "root"; privKey := Some sample_root |}
             sample_root); [left|reflexivity|reflexivity].
  - apply Habsent; [right; left|reflexivity].
Defined.

Lemma RemoveKey_idempotent_witness :
  RemoveKey (H := sample) (RemoveKey sample_store "sha:r").1 "sha:r"
  = RemoveKey sample_store "sha:r".
Proof.
  exact (proj2 (proj2 (proj2 (proj2 (proj2
    (RemoveKey_idempotent (H := sample) sample_store "sha:r")))))).
Defined.

Lemma Sign_order_and_method_witness :
  Forall (fun keyID => is_Some (keys sample_store !! keyID)) ["sha:t"; "sha:r"] /\
  exists sigs,
    Sign (H := sample) sample_store ["sha:t"; "sha:r"] [x68; x69]
    = Returned (sigs, None) /\
    KeyID <$> sigs = ["sha:t"; "sha:r"] /\
    Forall (fun s => Method s = "eddsa") sigs.
Proof.
  assert (Hall : Forall (fun keyID => is_Some (keys sample_store !! keyID))
                   ["sha:t"; "sha:r"])
    by (repeat constructor; eexists; reflexivity).
  split; [exact Hall|].
  destruct (Sign_order_and_method (H := sample)
              [CallAddKey "root" (Some sample_root);
               CallAddKey "targets" (Some sample_targets)]
              ["sha:t"; "sha:r"] [x68; x69] Hall)
    as (sigs & Hret & _ & _ & Hids & Hmethods).
  exists sigs. split; [exact Hret|]. split; [exact Hids|exact Hmethods].
Defined.

Lemma addKey_overwrites_witness :
  keys sample_store !! ID (Imports := sample) sample_root2
  = Some {| role := "root"; privKey := Some sample_root |} /\
  exists e',
    addKey (H := sample) sample_store "snapshot" (Some sample_root2)
    = Returned e' /\
    keys e' !! "sha:r"
    = Some {| role := "snapshot"; privKey := Some sample_root2 |} /\
    size (keys e') = size (keys sample_store).
Proof.
  assert (Hold : keys sample_store !! ID (Imports := sample) sample_root2
                 = Some {| role := "root"; privKey := Some sample_root |})
    by reflexivity.
  split; [exact Hold|].
  destruct (addKey_overwrites (H := sample) sample_store "snapshot"
              sample_root2 _ Hold) as (e' & Hadd & Hnew & _ & Hsize).
  exists e'. split; [exact Hadd|]. split; [exact Hnew|exact Hsize].
Defined.

(** * Further properties of the operations *)

Section Further.
Context `{Imports}.
Implicit Types (e : Ed25519) (keyID : string) (k : PrivateKey).

Lemma elem_of_ListKeys e r order keyID :
  range_order e order ->
  keyID ∈ ListKeys e r order <-> is_Some (keys e !! keyID).
Proof.
  intros Horder. rewrite (ListKeys_keys e r order Horder), list_elem_of_fmap.
  split.
  - intros ([id edKey] & -> & Hin). apply elem_of_map_to_list in Hin.
    by eexists.
  - intros [edKey Hget]. exists (keyID, edKey). split; [done|].
    by apply elem_of_map_to_list.
Qed.

(** ** X1 : whatever order the iteration takes, [ListAllKeys] returns the
    map that sends every identifier of the registry to the role recorded in
    its entry and has no other entry: two calls return the same map, and its
    identifiers are those that [ListKeys] lists. *)
Theorem ListAllKeys_inventory e r order order' :
  range_order e order -> range_order e order' ->
  ListAllKeys e order = role <$> keys e /\
  ListAllKeys e order' = ListAllKeys e order /\
  (forall keyID edKey, keys e !! keyID = Some edKey ->
     ListAllKeys e order !! keyID = Some (role edKey)) /\
  (forall keyID, is_Some (ListAllKeys e order !! keyID)
                 <-> keyID ∈ ListKeys e r order').
Proof.
  intros Horder Horder'.
  rewrite (ListAllKeys_roles e order Horder), (ListAllKeys_roles e order' Horder').
  split_and!; try done.
  - intros keyID edKey Hget. by rewrite lookup_fmap, Hget.
  - intros keyID. rewrite (elem_of_ListKeys e r order' keyID Horder').
    by rewrite lookup_fmap, fmap_is_Some.
Qed.



(** ** X4 : with the supported algorithm, [Create] hands the failure of the
    random key generation, and the failure of
    [data.NewED25519PrivateKey], back to its caller: it returns that very
    error with a [nil] public key, and the store is unchanged. *)
Theorem Create_propagates_errors e r algorithm :
  algorithm = ED25519Key ->
  (forall err,
     Create e r algorithm (GenerateKey_err err)
     = Returned (e, (None, Some err))) /\
  (forall pub priv err,
     NewED25519PrivateKey (NewED25519PublicKey pub) priv = inr err ->
     Create e r algorithm (GenerateKey_ok pub priv)
     = Returned (e, (None, Some err))).
Proof.
  intros ->. split.
  - intros err. unfold Create. by rewrite decide_False by (by intros Hne).
  - intros pub priv err Hnew. unfold Create.
    rewrite decide_False by (by intros Hne). by rewrite Hnew.
Qed.

(** ** What a request reads *)

Lemma index_agree e1 e2 keyID :
  keys e1 !! keyID = keys e2 !! keyID -> keys e1 !!! keyID = keys e2 !!! keyID.
Proof. intros Heq. by rewrite !lookup_total_alt, Heq. Qed.

Lemma Sign_loop_local e1 e2 toSign : forall (keyIDs : list string) acc,
  (forall id, id ∈ keyIDs -> keys e1 !! id = keys e2 !! id) ->
  Sign_loop e1 keyIDs toSign acc = Sign_loop e2 keyIDs toSign acc.
Proof.
  induction keyIDs as [|keyID rest IH]; intros acc Hagree; [done|].
  cbn [Sign_loop].
  rewrite (index_agree e1 e2 keyID) by apply Hagree, list_elem_of_here.
  destruct (privKey (keys e2 !!! keyID)) as [k|]; simpl; [|done].
  apply IH. intros id Hin. by apply Hagree, list_elem_of_further.
Qed.

Lemma PublicKeys_loop_local e1 e2 : forall (keyIDs : list string) acc,
  (forall id, id ∈ keyIDs -> keys e1 !! id = keys e2 !! id) ->
  PublicKeys_loop e1 keyIDs acc = PublicKeys_loop e2 keyIDs acc.
Proof.
  induction keyIDs as [|keyID rest IH]; intros acc Hagree; [done|].
  cbn [PublicKeys_loop]. rewrite (Hagree keyID) by apply list_elem_of_here.
  assert (forall id, id ∈ rest -> keys e1 !! id = keys e2 !! id) as Hrest.
  { intros id Hin. by apply Hagree, list_elem_of_further. }
  destruct (keys e2 !! keyID) as [edKey|]; [|by apply IH].
  destruct (PublicKeyFromPrivate_call (privKey edKey)) as [pub|]; simpl;
    [by apply IH|done].
Qed.

(** ** X5 : [Sign], [PublicKeys], [GetKey] and [GetPrivateKey] read only the
    entries of the identifiers they are asked about: on two stores whose
    registries agree on the requested identifiers they return the same. *)
Theorem requests_are_local e1 e2 (keyIDs : list string) toSign :
  (forall id, id ∈ keyIDs -> keys e1 !! id = keys e2 !! id) ->
  Sign e1 keyIDs toSign = Sign e2 keyIDs toSign /\
  PublicKeys e1 keyIDs = PublicKeys e2 keyIDs /\
  (forall id, id ∈ keyIDs ->
     GetKey e1 id = GetKey e2 id /\ GetPrivateKey e1 id = GetPrivateKey e2 id).
Proof.
  intros Hagree. split_and!.
  - unfold Sign. by rewrite (Sign_loop_local e1 e2 toSign keyIDs [] Hagree).
  - unfold PublicKeys.
    by rewrite (PublicKeys_loop_local e1 e2 keyIDs ∅ Hagree).
  - intros id Hin. unfold GetKey, GetPrivateKey.
    by rewrite (index_agree e1 e2 id (Hagree id Hin)).
Qed.


(** ** X7 : on the store built by a sequence of calls that ends with
    [RemoveKey] of an identifier, the identifier is in neither listing,
    [PublicKeys] leaves it out of its map, [GetPrivateKey] returns a [nil]
    key for it with a [nil] error, [GetKey] hands [nil] to
    [data.PublicKeyFromPrivate], and [Sign] panics on every request that
    names it. *)
Theorem removed_key_is_gone (calls : list call) keyID r order
    (keyIDs : list string) toSign :
  range_order (run (calls ++ [CallRemoveKey keyID])) order ->
  (keyID ∉ ListKeys (run (calls ++ [CallRemoveKey keyID])) r order) /\
  ListAllKeys (run (calls ++ [CallRemoveKey keyID])) order !! keyID = None /\
  (exists pubs,
     PublicKeys (run (calls ++ [CallRemoveKey keyID])) keyIDs
     = Returned (pubs, None) /\
     pubs !! keyID = None) /\
  (keyID ∈ keyIDs ->
   Sign (run (calls ++ [CallRemoveKey keyID])) keyIDs toSign = Panicked) /\
  GetPrivateKey (run (calls ++ [CallRemoveKey keyID])) keyID
  = (None, "", None) /\
  GetKey (run (calls ++ [CallRemoveKey keyID])) keyID = PublicKeyFromPrivate_nil.
Proof.
  pose proof (consistent_run (calls ++ [CallRemoveKey keyID])) as Hcons.
  assert (keys (run (calls ++ [CallRemoveKey keyID])) !! keyID = None) as Hnone.
  { unfold run. rewrite fold_left_app. simpl. apply lookup_delete_eq. }
  revert Hcons Hnone. generalize (run (calls ++ [CallRemoveKey keyID])).
  intros e' Hcons Hnone Horder. split_and!.
  - rewrite (elem_of_ListKeys e' r order keyID Horder), Hnone.
    by intros [? ?].
  - by rewrite (ListAllKeys_roles e' order Horder), lookup_fmap, Hnone.
  - destruct (PublicKeys_loop_spec e' Hcons keyIDs ∅) as (pubs & Hloop & Hpubs).
    exists pubs. unfold PublicKeys. rewrite Hloop. split; [done|].
    by rewrite Hpubs, Hnone, lookup_empty.
  - intros Hin. unfold Sign.
    by rewrite (Sign_loop_absent e' toSign keyID Hnone keyIDs [] Hin).
  - by apply GetPrivateKey_absent.
  - unfold GetKey. by rewrite index_absent.
Qed.

(** ** When Sign returns *)

Lemma held_present e keyID :
  is_Some (privKey (keys e !!! keyID)) -> is_Some (keys e !! keyID).
Proof.
  rewrite lookup_total_alt. destruct (keys e !! keyID); [by eauto|].
  by intros [? ?].
Qed.

Lemma Sign_loop_returned e toSign : forall (keyIDs : list string) acc sigs,
  Sign_loop e keyIDs toSign acc = Returned sigs ->
  Forall (fun keyID => is_Some (keys e !! keyID)) keyIDs.
Proof.
  induction keyIDs as [|keyID rest IH]; intros acc sigs Hret; [constructor|].
  cbn [Sign_loop] in Hret.
  destruct (privKey (keys e !!! keyID)) as [k|] eqn:Hk; simpl in Hret;
    [|discriminate].
  constructor; [|by eapply IH]. apply held_present. by rewrite Hk.
Qed.

Lemma Sign_loop_acc e toSign : forall (keyIDs : list string) acc,
  Sign_loop e keyIDs toSign acc
  = match Sign_loop e keyIDs toSign [] with
    | Returned sigs => Returned (acc ++ sigs)
    | Panicked => Panicked
    end.
Proof.
  induction keyIDs as [|keyID rest IH]; intros acc.
  - simpl. by rewrite app_nil_r.
  - cbn [Sign_loop].
    destruct (privKey (keys e !!! keyID)) as [k|]; simpl; [|done].
    rewrite (IH (acc ++ _)), (IH [_]).
    destruct (Sign_loop e rest toSign []) as [sigs|]; [|done].
    by rewrite <-app_assoc.
Qed.

Lemma Sign_loop_app e toSign : forall (l1 l2 : list string) acc,
  Sign_loop e (l1 ++ l2) toSign acc
  = match Sign_loop e l1 toSign acc with
    | Returned sigs => Sign_loop e l2 toSign sigs
    | Panicked => Panicked
    end.
Proof.
  induction l1 as [|keyID rest IH]; intros l2 acc; [done|].
  cbn [app Sign_loop].
  destruct (privKey (keys e !!! keyID)) as [k|]; simpl; [|done].
  apply IH.
Qed.

(** ** X8 : on the store that any sequence of calls has built, [Sign]
    returns its list of signatures (with a [nil] error) exactly when every
    requested identifier has an entry; otherwise it panics. *)
Theorem Sign_returns_iff_present (calls : list call) (keyIDs : list string)
    toSign :
  ((exists sigs, Sign (run calls) keyIDs toSign = Returned (sigs, None)) <->
   Forall (fun keyID => is_Some (keys (run calls) !! keyID)) keyIDs) /\
  (Sign (run calls) keyIDs toSign = Panicked <->
   Exists (fun keyID => keys (run calls) !! keyID = None) keyIDs).
Proof.
  generalize (consistent_run calls). generalize (run calls). intros e Hcons.
  assert ((exists sigs, Sign e keyIDs toSign = Returned (sigs, None)) <->
          Forall (fun keyID => is_Some (keys e !! keyID)) keyIDs) as Hiff.
  { split.
    - intros [sigs Hret]. unfold Sign in Hret.
      destruct (Sign_loop e keyIDs toSign []) as [sigs'|] eqn:Hloop;
        [|discriminate].
      by eapply Sign_loop_returned.
    - intros Hall.
      destruct (Sign_loop_held e toSign Hcons keyIDs [] Hall)
        as (sigs & Hloop & _).
      exists sigs. unfold Sign. by rewrite Hloop. }
  split; [done|]. split.
  - intros Hpanic.
    destruct (decide (Forall (fun keyID => is_Some (keys e !! keyID)) keyIDs))
      as [Hall|Hnot].
    + apply Hiff in Hall as [sigs Hret]. congruence.
    + apply not_Forall_Exists in Hnot; [|apply _].
      eapply Exists_impl; [exact Hnot|].
      intros keyID Hn. by apply eq_None_not_Some.
  - intros Hex. apply Exists_exists in Hex as (keyID & Hin & Hnone).
    unfold Sign. by rewrite (Sign_loop_absent e toSign keyID Hnone keyIDs []).
Qed.

(** ** X9 : whenever [Sign] returns on the store that a sequence of calls
    has built, its error is [nil], and the signature at each position is
    the one made by [ed25519.Sign] over the message with the private bytes
    of the key that the registry holds under the requested identifier at
    that position, a key whose own [ID()] is that identifier. *)
Theorem Sign_uses_stored_keys (calls : list call) (keyIDs : list string)
    toSign sigs err :
  Sign (run calls) keyIDs toSign = Returned (sigs, err) ->
  err = None /\
  Forall2 (fun keyID s => exists k,
             (GetPrivateKey (run calls) keyID).1.1 = Some k /\
             ID k = keyID /\
             s = signature_of toSign keyID k) keyIDs sigs.
Proof.
  generalize (consistent_run calls). generalize (run calls).
  intros e Hcons Hret. unfold Sign in Hret.
  destruct (Sign_loop e keyIDs toSign []) as [sigs'|] eqn:Hloop;
    [|discriminate].
  simpl in Hret. injection Hret as <- <-. split; [done|].
  pose proof (Sign_loop_returned _ _ _ _ _ Hloop) as Hall.
  destruct (Sign_loop_held e toSign Hcons keyIDs [] Hall)
    as (sigs & Hloop' & Hsigs).
  rewrite Hloop in Hloop'. injection Hloop' as ->.
  eapply Forall2_impl; [exact Hsigs|].
  intros keyID s (edKey & k & Hget & Hk & ->). exists k.
  destruct (consistent_lookup _ _ _ Hcons Hget) as (k' & Hk' & Hid).
  rewrite (GetPrivateKey_present _ _ _ Hget). simpl.
  split_and!; [done| |done]. congruence.
Qed.

(** ** X10 : the key that [Sign] passes to [ed25519.Sign] for a stored key
    always has [ed25519.PrivateKeySize] bytes: the private bytes of the key,
    cut after that many bytes when there are more, and filled up with zero
    bytes when there are fewer; private bytes of exactly that size are
    passed as they are. *)
Theorem Sign_key_buffer e keyID edKey k toSign :
  keys e !! keyID = Some edKey -> privKey edKey = Some k ->
  exists priv,
    Sign e [keyID] toSign
    = Returned ([{| KeyID := keyID; Method := EDDSASignature;
                    Signature_ := ed25519_Sign priv toSign |}], None) /\
    length priv = PrivateKeySize /\
    priv = take PrivateKeySize (Private k)
           ++ replicate (PrivateKeySize - length (Private k)) x00 /\
    (length (Private k) = PrivateKeySize -> priv = Private k).
Proof.
  intros Hget Hk.
  exists (copy (replicate PrivateKeySize x00) (Private k)).
  assert (copy (replicate PrivateKeySize x00) (Private k)
          = take PrivateKeySize (Private k)
            ++ replicate (PrivateKeySize - length (Private k)) x00) as Hcopy.
  { unfold copy. by rewrite length_replicate, drop_replicate. }
  split_and!; [|  |done|].
  - unfold Sign. cbn [Sign_loop]. by rewrite (index_present _ _ _ Hget), Hk.
  - rewrite Hcopy, length_app, length_take, length_replicate. lia.
  - intros Hlen. rewrite Hcopy, Hlen, Nat.sub_diag.
    rewrite take_ge by lia. simpl. by rewrite app_nil_r.
Qed.

(** ** X11 : [Sign] on a request that is two requests one after the other
    returns the signatures of the first followed by the signatures of the
    second, and panics when one of the two does. *)
Theorem Sign_app e (l1 l2 : list string) toSign :
  Sign e (l1 ++ l2) toSign
  = match Sign e l1 toSign, Sign e l2 toSign with
    | Returned (sigs1, _), Returned (sigs2, _) =>
        Returned (sigs1 ++ sigs2, None)
    | _, _ => Panicked
    end.
Proof.
  unfold Sign. rewrite Sign_loop_app.
  destruct (Sign_loop e l1 toSign []) as [sigs1|]; simpl; [|done].
  rewrite Sign_loop_acc.
  by destruct (Sign_loop e l2 toSign []) as [sigs2|].
Qed.

(** ** Looking keys up *)

(** ** X12 : on the store that any sequence of calls has built, the map that
    [PublicKeys] returns depends only on which identifiers are requested,
    not on their order nor on how often each is given. *)
Theorem PublicKeys_request_set (calls : list call) (keyIDs keyIDs' : list string) :
  (forall id, id ∈ keyIDs <-> id ∈ keyIDs') ->
  PublicKeys (run calls) keyIDs = PublicKeys (run calls) keyIDs'.
Proof.
  generalize (consistent_run calls). generalize (run calls).
  intros e Hcons Hsame.
  destruct (PublicKeys_loop_spec e Hcons keyIDs ∅) as (pubs & Hloop & Hpubs).
  destruct (PublicKeys_loop_spec e Hcons keyIDs' ∅) as (pubs' & Hloop' & Hpubs').
  unfold PublicKeys. rewrite Hloop, Hloop'. simpl. do 2 f_equal.
  apply map_eq. intros id. rewrite Hpubs, Hpubs'.
  destruct (keys e !! id) as [edKey|]; [|done].
  destruct (decide (id ∈ keyIDs)) as [Hin|Hnin].
  - by rewrite decide_True by (by apply Hsame).
  - rewrite decide_False; [done|]. intros Hin'. by apply Hnin, Hsame.
Qed.

(** ** X13 : on the store that any sequence of calls has built, an
    identifier that has an entry is stored with a key whose own [ID()] is
    that identifier; [GetPrivateKey] returns this key, [GetKey] returns its
    public key without a panic, and [PublicKeys] maps the identifier to the
    same public key in every request that names it. *)
Theorem held_key_lookup (calls : list call) keyID (keyIDs : list string) :
  is_Some (keys (run calls) !! keyID) ->
  exists k, ID k = keyID /\
    GetPrivateKey (run calls) keyID = (Some k, "", None) /\
    GetKey (run calls) keyID = Returned (Some (PublicKeyFromPrivate k)) /\
    (keyID ∈ keyIDs ->
     exists pubs, PublicKeys (run calls) keyIDs = Returned (pubs, None) /\
       pubs !! keyID = Some (Some (PublicKeyFromPrivate k))).
Proof.
  generalize (consistent_run calls). generalize (run calls).
  intros e Hcons [edKey Hget].
  destruct (consistent_lookup _ _ _ Hcons Hget) as (k & Hk & Hid).
  exists k. split_and!; [done| | |].
  - by rewrite (GetPrivateKey_present _ _ _ Hget), Hk.
  - by apply (GetKey_present _ _ edKey).
  - intros Hin.
    destruct (PublicKeys_loop_spec e Hcons keyIDs ∅) as (pubs & Hloop & Hpubs).
    exists pubs. unfold PublicKeys. rewrite Hloop. split; [done|].
    by rewrite Hpubs, Hget, decide_True, Hk.
Qed.

(** ** Adding and removing *)


(** ** X15 : calls that write different identifiers can be swapped: two
    [addKey] of keys with different identifiers, an [addKey] and a
    [RemoveKey] of another identifier, and any two [RemoveKey], leave the
    same store in either order. *)
Theorem writes_to_distinct_keys_commute e r1 r2 k1 k2 id1 id2 :
  ID k1 ≠ ID k2 -> ID k1 ≠ id2 ->
  after (after e (CallAddKey r1 (Some k1))) (CallAddKey r2 (Some k2))
  = after (after e (CallAddKey r2 (Some k2))) (CallAddKey r1 (Some k1)) /\
  after (after e (CallAddKey r1 (Some k1))) (CallRemoveKey id2)
  = after (after e (CallRemoveKey id2)) (CallAddKey r1 (Some k1)) /\
  after (after e (CallRemoveKey id1)) (CallRemoveKey id2)
  = after (after e (CallRemoveKey id2)) (CallRemoveKey id1).
Proof.
  intros Hkeys Hid. split_and!; apply Ed25519_eq; simpl.
  - by apply insert_insert_ne.
  - by apply delete_insert_ne.
  - apply delete_delete.
Qed.

(** ** The new store *)

Lemma PublicKeys_loop_new : forall (keyIDs : list string) acc,
  PublicKeys_loop NewEd25519 keyIDs acc = Returned acc.
Proof.
  induction keyIDs as [|keyID rest IH]; intros acc; [done|].
  cbn [PublicKeys_loop]. simpl. rewrite lookup_empty. apply IH.
Qed.

(** ** X16 : the store that [NewEd25519] makes holds no key: both listings
    are empty, [PublicKeys] returns the empty map and a [nil] error for
    every request, and [Sign] panics on every request but the empty one,
    for which it returns no signature and a [nil] error. *)
Theorem new_store_is_empty r order (keyIDs : list string) toSign :
  range_order NewEd25519 order ->
  ListKeys NewEd25519 r order = [] /\
  ListAllKeys NewEd25519 order = ∅ /\
  PublicKeys NewEd25519 keyIDs = Returned (∅, None) /\
  Sign NewEd25519 keyIDs toSign
  = match keyIDs with
    | [] => Returned ([], None)
    | _ :: _ => Panicked
    end.
Proof.
  intros Horder. unfold range_order in Horder. simpl in Horder.
  rewrite map_to_list_empty in Horder. apply Permutation_nil_r in Horder as ->.
  split_and!; try done.
  - unfold PublicKeys. by rewrite PublicKeys_loop_new.
  - destruct keyIDs as [|keyID rest]; [done|].
    unfold Sign.
    rewrite (Sign_loop_absent NewEd25519 toSign keyID); [done| |left].
    apply lookup_empty.
Qed.

(** ** Roles and repeated writes *)

Lemma privKey_index e1 e2 keyID :
  privKey <$> keys e1 !! keyID = privKey <$> keys e2 !! keyID ->
  privKey (keys e1 !!! keyID) = privKey (keys e2 !!! keyID).
Proof.
  intros Hsame. rewrite !lookup_total_alt.
  by destruct (keys e1 !! keyID), (keys e2 !! keyID); simplify_eq/=.
Qed.

Lemma Sign_loop_keys e1 e2 toSign :
  (forall id, privKey <$> keys e1 !! id = privKey <$> keys e2 !! id) ->
  forall (keyIDs : list string) acc,
  Sign_loop e1 keyIDs toSign acc = Sign_loop e2 keyIDs toSign acc.
Proof.
  intros Hsame. induction keyIDs as [|keyID rest IH]; intros acc; [done|].
  cbn [Sign_loop]. rewrite (privKey_index e1 e2 keyID (Hsame keyID)).
  destruct (privKey (keys e2 !!! keyID)) as [k|]; simpl; [apply IH|done].
Qed.

Lemma PublicKeys_loop_keys e1 e2 :
  (forall id, privKey <$> keys e1 !! id = privKey <$> keys e2 !! id) ->
  forall (keyIDs : list string) acc,
  PublicKeys_loop e1 keyIDs acc = PublicKeys_loop e2 keyIDs acc.
Proof.
  intros Hsame. induction keyIDs as [|keyID rest IH]; intros acc; [done|].
  cbn [PublicKeys_loop]. specialize (Hsame keyID).
  destruct (keys e1 !! keyID) as [edKey1|], (keys e2 !! keyID) as [edKey2|];
    simplify_eq/=; [|apply IH].
  rewrite Hsame.
  destruct (PublicKeyFromPrivate_call (privKey edKey2)) as [pub|]; simpl;
    [apply IH|done].
Qed.

(** ** X17 : no operation but [ListAllKeys] looks at the role of an entry:
    on two stores that hold the same keys under the same identifiers,
    whatever the roles, [Sign], [PublicKeys], [GetKey] and [GetPrivateKey]
    return the same, and [ListKeys] lists the same identifiers. *)
Theorem roles_are_not_consulted e1 e2 (keyIDs : list string) toSign keyID
    r1 r2 order1 order2 :
  (forall id, privKey <$> keys e1 !! id = privKey <$> keys e2 !! id) ->
  range_order e1 order1 -> range_order e2 order2 ->
  Sign e1 keyIDs toSign = Sign e2 keyIDs toSign /\
  PublicKeys e1 keyIDs = PublicKeys e2 keyIDs /\
  GetKey e1 keyID = GetKey e2 keyID /\
  GetPrivateKey e1 keyID = GetPrivateKey e2 keyID /\
  (forall id, id ∈ ListKeys e1 r1 order1 <-> id ∈ ListKeys e2 r2 order2).
Proof.
  intros Hsame Horder1 Horder2. split_and!.
  - unfold Sign. by rewrite (Sign_loop_keys e1 e2 toSign Hsame).
  - unfold PublicKeys. by rewrite (PublicKeys_loop_keys e1 e2 Hsame).
  - unfold GetKey. by rewrite (privKey_index e1 e2 keyID (Hsame keyID)).
  - unfold GetPrivateKey. by rewrite (privKey_index e1 e2 keyID (Hsame keyID)).
  - intros id. rewrite (elem_of_ListKeys e1 r1 order1 id Horder1).
    rewrite (elem_of_ListKeys e2 r2 order2 id Horder2).
    by rewrite <-!(fmap_is_Some privKey), Hsame.
Qed.

(** ** X18 : the last write to an identifier wins: [addKey] of a key after
    [addKey] of a key with the same identifier, and [Create] after a
    [Create] that got the same random draw, leave the store that the second
    call alone would have left; nothing is kept of the first. *)
Theorem last_write_wins e r1 r2 k1 k2 :
  ID k1 = ID k2 ->
  after (after e (CallAddKey r1 (Some k1))) (CallAddKey r2 (Some k2))
  = after e (CallAddKey r2 (Some k2)) /\
  (forall algorithm rnd,
     after (after e (CallCreate r1 algorithm rnd)) (CallCreate r2 algorithm rnd)
     = after e (CallCreate r2 algorithm rnd)).
Proof.
  intros Hid. split.
  - apply Ed25519_eq. simpl. rewrite Hid. apply insert_insert_eq.
  - intros algorithm rnd. unfold after, Create.
    destruct (decide (algorithm ≠ ED25519Key)); [done|].
    destruct rnd as [pub priv|err]; [|done].
    destruct (NewED25519PrivateKey _ _) as [private|err]; [|done].
    rewrite !addKey_held. simpl. apply Ed25519_eq. simpl.
    apply insert_insert_eq.
Qed.

End Further.

(** * The further statements on the sample implementation *)

Lemma ListAllKeys_inventory_witness :
  let order := [("sha:t", sample_targets_entry); ("sha:r", sample_root_entry)] in
  let order' := [("sha:r", sample_root_entry); ("sha:t", sample_targets_entry)] in
  range_order (H := sample) sample_store order /\
  range_order (H := sample) sample_store order' /\
  ListAllKeys sample_store order' = ListAllKeys sample_store order /\
  ListAllKeys sample_store order !! "sha:r" = Some "root".
Proof.
  intros order order'.
  assert (Horder : range_order sample_store order) by (vm_compute; constructor).
  assert (Horder' : range_order sample_store order')
    by (vm_compute; reflexivity).
  destruct (ListAllKeys_inventory (H := sample) sample_store "root"
              order order' Horder Horder') as (_ & Hsame & Hroles & _).
  split; [exact Horder|]. split; [exact Horder'|]. split; [exact Hsame|].
  exact (Hroles "sha:r" sample_root_entry eq_refl).
Defined.


Lemma Create_propagates_errors_witness :
  "ed25519" = ED25519Key (Imports := sample_checked) /\
  Create (H := sample_checked) NewEd25519 "root" "ed25519"
    (GenerateKey_err (errors_New "no entropy"))
  = Returned (NewEd25519, (None, Some (errors_New "no entropy"))) /\
  Create (H := sample_checked) NewEd25519 "root" "ed25519"
    (GenerateKey_ok [x61] [])
  = Returned (NewEd25519, (None, Some (errors_New "private key is empty"))).
Proof.
  assert (Halg : "ed25519" = ED25519Key (Imports := sample_checked))
    by reflexivity.
  destruct (Create_propagates_errors (H := sample_checked)
              NewEd25519 "root" "ed25519" Halg) as [Hgen Hkey].
  split; [exact Halg|]. split; [apply Hgen|]. by apply Hkey.
Defined.

Lemma requests_are_local_witness :
  (forall id, id ∈ ["sha:r"] ->
     keys sample_store !! id
     = keys (run (H := sample) [CallAddKey "root" (Some sample_root)]) !! id) /\
  Sign sample_store ["sha:r"] [x68]
  = Sign (run (H := sample) [CallAddKey "root" (Some sample_root)])
      ["sha:r"] [x68].
Proof.
  assert (Hagree : forall id, id ∈ ["sha:r"] ->
            keys sample_store !! id
            = keys (run (H := sample) [CallAddKey "root" (Some sample_root)])
              !! id).
  { intros id Hin. apply list_elem_of_singleton in Hin. rewrite Hin.
    reflexivity. }
  split; [exact Hagree|].
  exact (proj1 (requests_are_local (H := sample) sample_store _
                  ["sha:r"] [x68] Hagree)).
Defined.


Lemma removed_key_is_gone_witness :
  let calls := [CallAddKey "root" (Some sample_root);
                CallAddKey "targets" (Some sample_targets)] in
  range_order (H := sample) (run (calls ++ [CallRemoveKey "sha:r"]))
    [("sha:t", sample_targets_entry)] /\
  GetPrivateKey (run (calls ++ [CallRemoveKey "sha:r"])) "sha:r"
  = (None, "", None) /\
  ("sha:r" ∉ ListKeys (run (calls ++ [CallRemoveKey "sha:r"])) "root"
               [("sha:t", sample_targets_entry)]).
Proof.
  intros calls.
  assert (Horder : range_order (H := sample)
                     (run (calls ++ [CallRemoveKey "sha:r"]))
                     [("sha:t", sample_targets_entry)])
    by (vm_compute; reflexivity).
  destruct (removed_key_is_gone (H := sample) calls "sha:r" "root"
              [("sha:t", sample_targets_entry)] ["sha:t"; "sha:r"] [x68] Horder)
    as (Hlist & _ & _ & _ & Hpriv & _).
  split; [exact Horder|]. split; [exact Hpriv|exact Hlist].
Defined.

Lemma Sign_returns_iff_present_witness :
  Forall (fun keyID => is_Some (keys sample_store !! keyID)) ["sha:r"] /\
  exists sigs,
    Sign (H := sample) sample_store ["sha:r"] [x68] = Returned (sigs, None).
Proof.
  assert (Hall : Forall (fun keyID => is_Some (keys sample_store !! keyID))
                   ["sha:r"])
    by (repeat constructor; eexists; reflexivity).
  split; [exact Hall|].
  exact (proj2 (proj1 (Sign_returns_iff_present (H := sample)
                         [CallAddKey "root" (Some sample_root);
                          CallAddKey "targets" (Some sample_targets)]
                         ["sha:r"] [x68])) Hall).
Defined.

Lemma Sign_uses_stored_keys_witness :
  Sign (H := sample) sample_store ["sha:r"] [x68]
  = Returned ([{| KeyID := "sha:r"; Method := "eddsa";
                  Signature_ := [x01; x02; x68] |}], None) /\
  Forall2 (fun keyID s => exists k,
             (GetPrivateKey (H := sample) sample_store keyID).1.1 = Some k /\
             ID k = keyID /\ s = signature_of [x68] keyID k)
    ["sha:r"]
    [{| KeyID := "sha:r"; Method := "eddsa"; Signature_ := [x01; x02; x68] |}].
Proof.
  assert (Hret : Sign (H := sample) sample_store ["sha:r"] [x68]
                 = Returned ([{| KeyID := "sha:r"; Method := "eddsa";
                                 Signature_ := [x01; x02; x68] |}], None))
    by reflexivity.
  split; [exact Hret|].
  exact (proj2 (Sign_uses_stored_keys (H := sample)
                  [CallAddKey "root" (Some sample_root);
                   CallAddKey "targets" (Some sample_targets)]
                  ["sha:r"] [x68] _ None Hret)).
Defined.

Lemma Sign_key_buffer_witness :
  keys sample_store !! "sha:r" = Some sample_root_entry /\
  privKey sample_root_entry = Some sample_root /\
  exists priv,
    Sign (H := sample) sample_store ["sha:r"] [x68]
    = Returned ([{| KeyID := "sha:r"; Method := "eddsa";
                    Signature_ := ed25519_Sign (Imports := sample) priv [x68] |}],
                None) /\
    length priv = 64 /\
    priv = [x01; x02; x03] ++ replicate 61 x00.
Proof.
  assert (Hget : keys sample_store !! "sha:r" = Some sample_root_entry)
    by reflexivity.
  assert (Hk : privKey sample_root_entry = Some sample_root) by reflexivity.
  split; [exact Hget|]. split; [exact Hk|].
  destruct (Sign_key_buffer (H := sample) sample_store "sha:r"
              sample_root_entry sample_root [x68] Hget Hk)
    as (priv & Hsign & Hlen & Hcopy & _).
  exists priv. split; [exact Hsign|]. split; [exact Hlen|exact Hcopy].
Defined.

Lemma PublicKeys_request_set_witness :
  (forall id : string, id ∈ ["sha:r"; "sha:x"; "sha:r"] <-> id ∈ ["sha:x"; "sha:r"]) /\
  PublicKeys (H := sample) sample_store ["sha:r"; "sha:x"; "sha:r"]
  = PublicKeys sample_store ["sha:x"; "sha:r"].
Proof.
  assert (Hsame : forall id : string,
            id ∈ ["sha:r"; "sha:x"; "sha:r"] <-> id ∈ ["sha:x"; "sha:r"]).
  { intros id. rewrite !elem_of_cons, !elem_of_nil. tauto. }
  split; [exact Hsame|].
  exact (PublicKeys_request_set (H := sample)
           [CallAddKey "root" (Some sample_root);
            CallAddKey "targets" (Some sample_targets)]
           ["sha:r"; "sha:x"; "sha:r"] ["sha:x"; "sha:r"] Hsame).
Defined.

Lemma held_key_lookup_witness :
  is_Some (keys sample_store !! "sha:t") /\
  exists k, ID (Imports := sample) k = "sha:t" /\
    GetPrivateKey (H := sample) sample_store "sha:t" = (Some k, "", None) /\
    GetKey (H := sample) sample_store "sha:t"
    = Returned (Some (PublicKeyFromPrivate k)).
Proof.
  assert (Hheld : is_Some (keys sample_store !! "sha:t"))
    by (eexists; reflexivity).
  split; [exact Hheld|].
  destruct (held_key_lookup (H := sample)
              [CallAddKey "root" (Some sample_root);
               CallAddKey "targets" (Some sample_targets)]
              "sha:t" ["sha:t"] Hheld) as (k & Hid & Hpriv & Hpub & _).
  exists k. split; [exact Hid|]. split; [exact Hpriv|exact Hpub].
Defined.


Lemma writes_to_distinct_keys_commute_witness :
  ID (Imports := sample) sample_snapshot ≠ ID (Imports := sample) sample_root /\
  ID (Imports := sample) sample_snapshot ≠ "sha:t" /\
  after (H := sample)
    (after sample_store (CallAddKey "snapshot" (Some sample_snapshot)))
    (CallRemoveKey "sha:t")
  = after (after sample_store (CallRemoveKey "sha:t"))
      (CallAddKey "snapshot" (Some sample_snapshot)).
Proof.
  assert (Hkeys : ID (Imports := sample) sample_snapshot
                  ≠ ID (Imports := sample) sample_root) by discriminate.
  assert (Hid : ID (Imports := sample) sample_snapshot ≠ "sha:t")
    by discriminate.
  split; [exact Hkeys|]. split; [exact Hid|].
  exact (proj1 (proj2 (writes_to_distinct_keys_commute (H := sample)
                         sample_store "snapshot" "root" sample_snapshot
                         sample_root "sha:r" "sha:t" Hkeys Hid))).
Defined.

Lemma new_store_is_empty_witness :
  range_order (H := sample) NewEd25519 [] /\
  ListKeys (H := sample) NewEd25519 "root" [] = [] /\
  PublicKeys (H := sample) NewEd25519 ["sha:r"] = Returned (∅, None) /\
  Sign (H := sample) NewEd25519 ["sha:r"] [x68] = Panicked.
Proof.
  assert (Horder : range_order (H := sample) NewEd25519 [])
    by (vm_compute; constructor).
  destruct (new_store_is_empty (H := sample) "root" [] ["sha:r"] [x68] Horder)
    as (Hlist & _ & Hpubs & Hsign).
  split; [exact Horder|]. split; [exact Hlist|]. split; [exact Hpubs|exact Hsign].
Defined.

Lemma roles_are_not_consulted_witness :
  (forall id : string,
     privKey (H := sample) <$> keys sample_store !! id
     = privKey (H := sample) <$> keys sample_store_roles !! id) /\
  Sign (H := sample) sample_store ["sha:t"; "sha:r"] [x68]
  = Sign sample_store_roles ["sha:t"; "sha:r"] [x68].
Proof.
  assert (Hsame : forall id : string,
            privKey (H := sample) <$> keys sample_store !! id
            = privKey (H := sample) <$> keys sample_store_roles !! id).
  { intros id.
    change (keys sample_store)
      with (<["sha:t" := sample_targets_entry]>
              (<["sha:r" := sample_root_entry]>
                 (∅ : gmap string (@edCryptoKey sample)))).
    change (keys sample_store_roles)
      with (<["sha:t" := {| role := "snapshot";
                            privKey := Some sample_targets |}]>
              (<["sha:r" := {| role := "timestamp";
                               privKey := Some sample_root |}]>
                 (∅ : gmap string (@edCryptoKey sample)))).
    rewrite !lookup_insert, !lookup_empty.
    destruct (decide ("sha:t" = id)), (decide ("sha:r" = id)); reflexivity. }
  assert (Horder : range_order (H := sample) sample_store
                     (map_to_list (keys sample_store)))
    by (unfold range_order; reflexivity).
  assert (Horder' : range_order (H := sample) sample_store_roles
                      (map_to_list (keys sample_store_roles)))
    by (unfold range_order; reflexivity).
  split; [exact Hsame|].
  exact (proj1 (roles_are_not_consulted (H := sample) sample_store
                  sample_store_roles ["sha:t"; "sha:r"] [x68] "sha:r"
                  "root" "root" _ _ Hsame Horder Horder')).
Defined.

Lemma last_write_wins_witness :
  ID (Imports := sample) sample_root = ID (Imports := sample) sample_root2 /\
  after (H := sample)
    (after sample_store (CallAddKey "root" (Some sample_root)))
    (CallAddKey "snapshot" (Some sample_root2))
  = after sample_store (CallAddKey "snapshot" (Some sample_root2)).
Proof.
  assert (Hid : ID (Imports := sample) sample_root
                = ID (Imports := sample) sample_root2) by reflexivity.
  split; [exact Hid|].
  exact (proj1 (last_write_wins (H := sample) sample_store
                  "root" "snapshot" sample_root sample_root2 Hid)).
Defined.
